(** * keyshade authentication: the auth controller and the core it delegates to

    The definitions embed [apps/api/src/auth/controller/auth.controller.ts]:
    the OTP endpoints and the three OAuth callbacks, written in a small
    state-and-exception monad over the HTTP response, the logger and the
    injected [AuthService]; and they model the identity-resolution and
    session-issuance core (OtpStore, IdentityResolver, SessionIssuer,
    AuthCore), whose code lives in the service layer.  The properties
    follow, the controller's first. *)

From stdpp Require Import gmap strings list fin_maps.

Local Open Scope string_scope.
Local Open Scope nat_scope.

(* ===================================================================== *)
(** * Part I: definitions                                                *)
(* ===================================================================== *)

(** Modelled from the spec: the enum [AuthProvider] is imported from
    [@prisma/client], which is not part of the sources; these are the three
    members the controller uses and the three providers the spec names. *)
Inductive AuthProvider := GITHUB | GITLAB | GOOGLE.

Global Instance AuthProvider_eq_dec : EqDecision AuthProvider.
Proof. solve_decision. Defined.

Definition AuthProvider_to_nat (p : AuthProvider) : nat :=
  match p with GITHUB => 0 | GITLAB => 1 | GOOGLE => 2 end.

Definition AuthProvider_of_nat (n : nat) : option AuthProvider :=
  match n with
  | 0 => Some GITHUB
  | 1 => Some GITLAB
  | 2 => Some GOOGLE
  | _ => None
  end.

Global Instance AuthProvider_countable : Countable AuthProvider.
Proof.
  apply (inj_countable AuthProvider_to_nat AuthProvider_of_nat).
  by intros [].
Defined.

(** Values a JavaScript function can throw.  NestJS exceptions are
    [HttpException]s with a response message and a status code; anything
    else is a plain [Error]. *)
Inductive Exception :=
| HttpException (response : string) (status : nat)
| JsError (message : string).

Global Instance Exception_eq_dec : EqDecision Exception.
Proof. solve_decision. Defined.

(** [new UnprocessableEntityException(msg)] is an [HttpException] with
    status 422. *)
Definition UnprocessableEntityException (message : string) : Exception :=
  HttpException message 422.

(** The injected [AuthService] ([../service/auth.service], not part of the
    sources) is an interface: its state and its three entry points are left
    abstract.  [user_of] is the user part of a [UserAuthenticatedResponse],
    which [setCookie] returns after moving the token into the cookie. *)
Class AuthService := {
  ServiceState : Type;
  UserAuthenticatedResponse : Type;
  User : Type;
  service_sendOtp :
    string → ServiceState → (Exception + unit) * ServiceState;
  service_validateOtp :
    string → string → ServiceState →
    (Exception + UserAuthenticatedResponse) * ServiceState;
  service_handleOAuthLogin :
    string → string → option string → AuthProvider → ServiceState →
    (Exception + UserAuthenticatedResponse) * ServiceState;
  user_of : UserAuthenticatedResponse → User
}.

Module AuthController.

(** An element of passport's [emails] and [photos] arrays:
    [{ value: string }]. *)
Record Entry := { value : string }.

(** [req.user], the profile the passport strategy attached to the
    request.  The request is typed [any]: the [emails] and [photos] arrays
    may be missing ([None]) as well as empty, and so may [avatarUrl]. *)
Record Profile := {
  emails : option (list Entry);
  displayName : string;
  photos : option (list Entry);
  avatarUrl : option string
}.

Definition missing_email_message : string :=
  "Email information is missing from the OAuth provider data.".

Definition different_provider_message : string :=
  "User attempted to log in with a different OAuth provider".

(** What reading a property off [undefined] throws. *)
Definition type_error : Exception := JsError "TypeError".

Section controller.
Context `{svc : AuthService}.

(** What the controller does to the [express] response. *)
Inductive ResponseAction :=
| Cookie (data : UserAuthenticatedResponse)
| OAuthSuccessRedirect (user : User)
| OAuthFailureRedirect (reason : string).

(** One invocation of [authService.handleOAuthLogin]. *)
Record LoginCall := {
  call_email : string;
  call_name : string;
  call_profilePictureUrl : option string;
  call_provider : AuthProvider
}.

Record World := {
  service : ServiceState;
  response : list ResponseAction;
  logged : list string;
  login_calls : list LoginCall
}.

Definition M (A : Type) : Type := World → (Exception + A) * World.

Definition ret {A} (a : A) : M A := λ w, (inr a, w).

Definition throw {A} (e : Exception) : M A := λ w, (inl e, w).

Definition bind {A B} (m : M A) (k : A → M B) : M B :=
  λ w, match m w with
       | (inl e, w') => (inl e, w')
       | (inr a, w') => k a w'
       end.

(** [try { m } catch (error) { h error }] *)
Definition try_catch {A} (m : M A) (h : Exception → M A) : M A :=
  λ w, match m w with
       | (inl e, w') => h e w'
       | (inr a, w') => (inr a, w')
       end.

(** A call to an [async] method whose promise is neither awaited nor
    returned: its effects happen, its outcome (a rejection included) is
    dropped, and the caller goes on with [undefined]. *)
Definition not_awaited {A} (m : M A) : M unit :=
  λ w, (inr tt, (m w).2).

Local Notation "x ⇐ m ;; k" := (bind m (λ x, k))
  (at level 100, m at next level, right associativity).

(** ** The collaborators *)

Definition authService_sendOtp (email : string) : M unit :=
  λ w, let '(r, s') := service_sendOtp email (service w) in
       (r, {| service := s'; response := response w;
              logged := logged w; login_calls := login_calls w |}).

Definition authService_validateOtp (email otp : string)
  : M UserAuthenticatedResponse :=
  λ w, let '(r, s') := service_validateOtp email otp (service w) in
       (r, {| service := s'; response := response w;
              logged := logged w; login_calls := login_calls w |}).

Definition authService_handleOAuthLogin
    (email name : string) (profilePictureUrl : option string)
    (oauthProvider : AuthProvider) : M UserAuthenticatedResponse :=
  λ w, let '(r, s') :=
         service_handleOAuthLogin email name profilePictureUrl
           oauthProvider (service w) in
       (r, {| service := s'; response := response w;
              logged := logged w;
              login_calls := login_calls w ++
                [{| call_email := email; call_name := name;
                    call_profilePictureUrl := profilePictureUrl;
                    call_provider := oauthProvider |}] |}).

Definition respond (a : ResponseAction) : M unit :=
  λ w, (inr tt, {| service := service w; response := response w ++ [a];
                   logged := logged w; login_calls := login_calls w |}).

(** Modelled from the spec: [setCookie] ([../../common/set-cookie]) is
    not part of the sources; the transport layer conveys the issued
    session to the client as a cookie and hands back the user. *)
Definition setCookie (data : UserAuthenticatedResponse) : M User :=
  _ ⇐ respond (Cookie data) ;; ret (user_of data).

(** Modelled from the spec: [sendOAuthSuccessRedirect] and
    [sendOAuthFailureRedirect] ([../../common/redirect]) are not part of
    the sources; the transport layer redirects the browser to a success
    or a failure destination. *)
Definition sendOAuthSuccessRedirect (user : User) : M unit :=
  respond (OAuthSuccessRedirect user).

(** Modelled from the spec: see [sendOAuthSuccessRedirect]; the failure
    redirect carries the reason it is given. *)
Definition sendOAuthFailureRedirect (reason : string) : M unit :=
  respond (OAuthFailureRedirect reason).

Definition logger_warn (message : string) : M unit :=
  λ w, (inr tt, {| service := service w; response := response w;
                   logged := logged w ++ [message];
                   login_calls := login_calls w |}).

(** [xs.length]: a [TypeError] when [xs] is missing. *)
Definition length_of (xs : option (list Entry)) : M nat :=
  match xs with
  | Some l => ret (length l)
  | None => throw type_error
  end.

(** [xs[0].value]: a [TypeError] when [xs] is missing or has no first
    element. *)
Definition first_value (xs : option (list Entry)) : M string :=
  match xs with
  | Some l =>
      match l !! 0 with
      | Some e => ret (value e)
      | None => throw type_error
      end
  | None => throw type_error
  end.

(** [xs[0]?.value]: the optional chain guards [.value] only, so a missing
    [xs] is still a [TypeError]; an empty one gives [undefined]. *)
Definition first_value_opt (xs : option (list Entry))
  : M (option string) :=
  match xs with
  | Some l => ret (value <$> l !! 0)
  | None => throw type_error
  end.

(** ** The endpoints *)

Definition sendOtp (email : string) : M unit :=
  authService_sendOtp email.

Definition validateOtp (email otp : string) : M User :=
  data ⇐ authService_validateOtp email otp ;;
  setCookie data.

Definition handleOAuthProcess
    (email name : string) (profilePictureUrl : option string)
    (oauthProvider : AuthProvider) : M unit :=
  try_catch
    (data ⇐ authService_handleOAuthLogin email name profilePictureUrl
              oauthProvider ;;
     user ⇐ setCookie data ;;
     sendOAuthSuccessRedirect user)
    (λ error,
     _ ⇐ logger_warn different_provider_message ;;
     sendOAuthFailureRedirect different_provider_message).

Definition githubOAuthCallback (req_user : Profile)
  : M UserAuthenticatedResponse :=
  let emails := emails req_user in
  let name := displayName req_user in
  let photos := photos req_user in
  n ⇐ length_of emails ;;
  if bool_decide (n = 0) then
    throw (UnprocessableEntityException missing_email_message)
  else
    email ⇐ first_value emails ;;
    profilePictureUrl ⇐ first_value_opt photos ;;
    authService_handleOAuthLogin email name profilePictureUrl GITHUB.

Definition gitlabOAuthCallback (req_user : Profile) : M unit :=
  let emails := emails req_user in
  let name := displayName req_user in
  let profilePictureUrl := avatarUrl req_user in
  n ⇐ length_of emails ;;
  if bool_decide (n = 0) then
    throw (UnprocessableEntityException missing_email_message)
  else
    email ⇐ first_value emails ;;
    not_awaited
      (handleOAuthProcess email name profilePictureUrl GITLAB).

Definition googleOAuthCallback (req_user : Profile) : M unit :=
  let emails := emails req_user in
  let name := displayName req_user in
  let photos := photos req_user in
  n ⇐ length_of emails ;;
  if bool_decide (n = 0) then
    throw (UnprocessableEntityException missing_email_message)
  else
    email ⇐ first_value emails ;;
    profilePictureUrl ⇐ first_value_opt photos ;;
    not_awaited
      (handleOAuthProcess email name profilePictureUrl GOOGLE).

(** What the HTTP client of a callback gets to see: the exception the
    global handler turns into the response body, or the value the
    callback returned, together with everything done to the response
    object.  The logger and the service state are internal. *)
Definition external_view {A} (r : (Exception + A) * World)
  : (Exception + A) * list ResponseAction :=
  (r.1, response r.2).

(** A world in which nothing has happened yet on this request. *)
Definition fresh_world (s : ServiceState) : World :=
  {| service := s; response := []; logged := []; login_calls := [] |}.

Definition missing_email : Exception :=
  UnprocessableEntityException missing_email_message.

Definition record_call (email name : string) (picture : option string)
    (p : AuthProvider) (w : World) : list LoginCall :=
  login_calls w ++
  [{| call_email := email; call_name := name;
      call_profilePictureUrl := picture; call_provider := p |}].

(** The world after a login that the service turned down, as
    [handleOAuthProcess] leaves it. *)
Definition after_failure (email name : string) (picture : option string)
    (p : AuthProvider) (s' : ServiceState) (w : World) : World :=
  {| service := s';
     response := response w ++
       [OAuthFailureRedirect different_provider_message];
     logged := logged w ++ [different_provider_message];
     login_calls := record_call email name picture p w |}.

End controller.

End AuthController.

(** ** The endpoints that start an OAuth flow *)

(** The three injected strategy factories
    ([../../config/factory/*/*-strategy.factory], not part of the sources)
    are interfaces: what each answers to [isOAuthEnabled()] is left
    abstract. *)
Class StrategyFactories := {
  githubOAuthStrategyFactory_isOAuthEnabled : bool;
  gitlabOAuthStrategyFactory_isOAuthEnabled : bool;
  googleOAuthStrategyFactory_isOAuthEnabled : bool
}.

Module AuthLogin.

(** [res.status(code).redirect(url)] *)
Record Redirect := { status : nat; url : string }.

(** [HttpStatus.BAD_REQUEST] *)
Definition BAD_REQUEST : nat := 400.

Definition github_not_enabled_message : string :=
  "GitHub Auth is not enabled in this environment. Refer to the https://docs.keyshade.xyz/contributing-to-keyshade/environment-variables if you would like to set it up.".

Definition gitlab_not_enabled_message : string :=
  "GitLab Auth is not enabled in this environment. Refer to the https://docs.keyshade.xyz/contributing-to-keyshade/environment-variables if you would like to set it up.".

Definition google_not_enabled_message : string :=
  "Google Auth is not enabled in this environment. Refer to the https://docs.keyshade.xyz/contributing-to-keyshade/environment-variables if you would like to set it up.".

Section login.
Context `{factories : StrategyFactories}.

(** The endpoints only use the response: they take the redirects sent so
    far and give back the exception thrown, if any, and the redirects sent
    after the call. *)
Definition githubOAuthLogin (res : list Redirect)
  : (Exception + unit) * list Redirect :=
  if negb githubOAuthStrategyFactory_isOAuthEnabled then
    (inl (HttpException github_not_enabled_message BAD_REQUEST), res)
  else
    (inr tt,
     (res ++ [{| status := 302;
                 url := "/api/auth/github/callback" |}])%list).

Definition gitlabOAuthLogin (res : list Redirect)
  : (Exception + unit) * list Redirect :=
  if negb gitlabOAuthStrategyFactory_isOAuthEnabled then
    (inl (HttpException gitlab_not_enabled_message BAD_REQUEST), res)
  else
    (inr tt,
     (res ++ [{| status := 302;
                 url := "/api/auth/gitlab/callback" |}])%list).

Definition googleOAuthLogin (res : list Redirect)
  : (Exception + unit) * list Redirect :=
  if negb googleOAuthStrategyFactory_isOAuthEnabled then
    (inl (HttpException google_not_enabled_message BAD_REQUEST), res)
  else
    (inr tt,
     (res ++ [{| status := 302;
                 url := "/api/auth/google/callback" |}])%list).

(** The routes [GET auth/github], [auth/gitlab] and [auth/google]. *)
Definition login_route (p : AuthProvider)
  : list Redirect → (Exception + unit) * list Redirect :=
  match p with
  | GITHUB => githubOAuthLogin
  | GITLAB => gitlabOAuthLogin
  | GOOGLE => googleOAuthLogin
  end.

Definition isOAuthEnabled (p : AuthProvider) : bool :=
  match p with
  | GITHUB => githubOAuthStrategyFactory_isOAuthEnabled
  | GITLAB => gitlabOAuthStrategyFactory_isOAuthEnabled
  | GOOGLE => googleOAuthStrategyFactory_isOAuthEnabled
  end.

End login.

(** The callback route a provider's flow comes back to. *)
Definition callback_route (p : AuthProvider) : string :=
  match p with
  | GITHUB => "/api/auth/github/callback"
  | GITLAB => "/api/auth/gitlab/callback"
  | GOOGLE => "/api/auth/google/callback"
  end.

End AuthLogin.


(* ===================================================================== *)
(** ** The core behind the controller                                    *)
(* ===================================================================== *)

(** Whether an OAuth login through a provider that is not yet linked to an
    existing account is allowed to link it. *)
Inductive LinkPolicy := ForbidSilentLinking | PermitLinking.

(** Modelled from the spec: the deployment's policy constants and secret
    material, which the spec names but does not fix: the lifetime of a
    challenge, the number of attempts, the lifetime of a session, the
    linking policy, the email format check, and the issuer's keyed tag over
    [(userId, expiresAt)].  Timestamps are clock readings in [nat]. *)
Class Policy := {
  otp_ttl : nat;
  max_attempts : nat;
  session_ttl : nat;
  link_policy : LinkPolicy;
  valid_email : string → bool;
  Tag : Type;
  Tag_eq_dec :: EqDecision Tag;
  issuer_tag : nat → nat → Tag
}.

Module OtpStore.

(** Modelled from the spec: the [PendingOtp] record of the data model. *)
Record PendingOtp := {
  email : string;
  code : string;
  expiresAt : nat;
  attemptsRemaining : nat
}.

Inductive Failure := NotFound | Expired | Mismatch | AttemptsExhausted.

Definition lower (c : Ascii.ascii) : Ascii.ascii :=
  let n := Ascii.nat_of_ascii c in
  if (65 <=? n)%nat && (n <=? 90)%nat then Ascii.ascii_of_nat (n + 32) else c.

(** Modelled from the spec: the key of a challenge is the email,
    normalized and case-insensitive. *)
Fixpoint normalize (email : string) : string :=
  match email with
  | EmptyString => EmptyString
  | String c rest => String (lower c) (normalize rest)
  end.

(** Whether two strings differ, looking at every character of both
    whatever the earlier ones were. *)
Fixpoint differ (a b : string) : bool :=
  match a, b with
  | EmptyString, EmptyString => false
  | String x a', String y b' => orb (negb (Ascii.eqb x y)) (differ a' b')
  | _, _ => true
  end.

(** Modelled from the spec: the comparison of the candidate code, which
    does not stop at the first difference. *)
Definition constant_time_eq (a b : string) : bool := negb (differ a b).

Definition decrement (p : PendingOtp) : PendingOtp :=
  {| email := email p; code := code p; expiresAt := expiresAt p;
     attemptsRemaining := pred (attemptsRemaining p) |}.

Section store.
Context `{policy : Policy}.

(** Modelled from the spec: [Create(email) -> code].  The fresh secret
    [fresh] is drawn by the caller's entropy source; the challenge
    overwrites any pending one, expires [otp_ttl] after [now] and starts
    with [max_attempts] attempts. *)
Definition Create (now : nat) (fresh : string) (email : string)
    (s : gmap string PendingOtp) : string * gmap string PendingOtp :=
  let key := normalize email in
  (fresh,
   <[key := {| email := key; code := fresh; expiresAt := now + otp_ttl;
               attemptsRemaining := max_attempts |}]> s).

(** Modelled from the spec: [Consume(email, candidateCode)]. *)
Definition Consume (now : nat) (email candidateCode : string)
    (s : gmap string PendingOtp)
  : (Failure + unit) * gmap string PendingOtp :=
  let key := normalize email in
  match s !! key with
  | None => (inl NotFound, s)
  | Some p =>
      if (expiresAt p <? now)%nat then (inl Expired, delete key s)
      else if constant_time_eq candidateCode (code p)
      then (inr tt, delete key s)
      else
        let p' := decrement p in
        if (attemptsRemaining p' =? 0)%nat
        then (inl AttemptsExhausted, delete key s)
        else (inl Mismatch, <[key := p']> s)
  end.

(** Modelled from the spec: the periodic sweep that reaps expired
    challenges. *)
Definition reap (now : nat) (s : gmap string PendingOtp)
  : gmap string PendingOtp :=
  filter (λ kp, now ≤ expiresAt kp.2) s.

End store.
End OtpStore.

Module IdentityResolver.

(** Modelled from the spec: the [UserIdentity] record of the data model. *)
Record UserIdentity := {
  userId : nat;
  email : string;
  displayName : option string;
  avatarUrl : option string;
  linkedProviders : gset (AuthProvider * string)
}.

(** Modelled from the spec: the identity table of the persistence layer,
    with the next user id to assign. *)
Record Store := {
  users : list UserIdentity;
  nextUserId : nat
}.

Inductive Failure := ProviderConflict.

Definition empty : Store := {| users := []; nextUserId := 0 |}.

(** Modelled from the spec: the email as the canonical identity key, in
    the normalized, case-insensitive form the challenges are keyed by. *)
Definition canonical (e : string) : string := OtpStore.normalize e.

Definition find_by_email (e : string) (st : Store)
  : option (nat * UserIdentity) :=
  list_find (λ u, email u = e) (users st).

(** Modelled from the spec: the persistence layer keys the records by
    [(provider, providerSubjectId)] as well as by email: whether the pair
    is already the key of a record other than that of the email [e]. *)
Definition keyed_elsewhere (e : string) (pair : AuthProvider * string)
    (st : Store) : Prop :=
  Exists (λ v, pair ∈ linkedProviders v ∧ email v ≠ e) (users st).

Global Instance keyed_elsewhere_dec e pair st :
  Decision (keyed_elsewhere e pair st).
Proof. unfold keyed_elsewhere. apply _. Defined.

(** Profile fields are last-writer-wins. *)
Definition refresh (name : string) (avatar : option string)
    (u : UserIdentity) : UserIdentity :=
  {| userId := userId u; email := email u; displayName := Some name;
     avatarUrl := avatar; linkedProviders := linkedProviders u |}.

Definition link (pair : AuthProvider * string) (u : UserIdentity)
  : UserIdentity :=
  {| userId := userId u; email := email u; displayName := displayName u;
     avatarUrl := avatarUrl u;
     linkedProviders := {[pair]} ∪ linkedProviders u |}.

Definition put (i : nat) (u : UserIdentity) (st : Store) : Store :=
  {| users := <[i := u]> (users st); nextUserId := nextUserId st |}.

Definition add (u : UserIdentity) (st : Store) : Store :=
  {| users := users st ++ [u]; nextUserId := S (nextUserId st) |}.

(** Modelled from the spec: [ResolveByEmail(email)], the existing identity
    or a new one if the email is unseen. *)
Definition ResolveByEmail (e : string) (st : Store)
  : UserIdentity * Store :=
  let key := canonical e in
  match find_by_email key st with
  | Some (_, u) => (u, st)
  | None =>
      let u := {| userId := nextUserId st; email := key;
                  displayName := None; avatarUrl := None;
                  linkedProviders := ∅ |} in
      (u, add u st)
  end.

(** Modelled from the spec: [ResolveOrLink(email, provider,
    providerSubjectId, displayName, avatarUrl)], its four cases in the
    order the spec lists them.  Where a case writes the pair (linking it,
    or creating the identity with it), a pair that is already the key of
    another record cannot be written: the operation then fails with the
    one failure it has and writes nothing. *)
Definition ResolveOrLink (policy : LinkPolicy) (e : string)
    (provider : AuthProvider) (providerSubjectId : string)
    (name : string) (avatar : option string) (st : Store)
  : (Failure + UserIdentity) * Store :=
  let key := canonical e in
  let pair := (provider, providerSubjectId) in
  match find_by_email key st with
  | Some (i, u) =>
      if decide (pair ∈ linkedProviders u) then
        let u' := refresh name avatar u in (inr u', put i u' st)
      else
        match policy with
        | ForbidSilentLinking => (inl ProviderConflict, st)
        | PermitLinking =>
            if decide (keyed_elsewhere key pair st)
            then (inl ProviderConflict, st)
            else
              let u' := refresh name avatar (link pair u) in
              (inr u', put i u' st)
        end
  | None =>
      if decide (keyed_elsewhere key pair st)
      then (inl ProviderConflict, st)
      else
        let u := {| userId := nextUserId st; email := key;
                    displayName := Some name; avatarUrl := avatar;
                    linkedProviders := {[pair]} |} in
        (inr u, add u st)
  end.

End IdentityResolver.

Module SessionIssuer.
Section issuer.
Context `{policy : Policy}.

(** Modelled from the spec: a self-verifying token, bound to the user id
    and the expiry by the issuer's tag. *)
Record Token := {
  token_userId : nat;
  token_expiresAt : nat;
  token_tag : Tag
}.

(** Modelled from the spec: the [Session] record of the data model. *)
Record Session := {
  token : Token;
  issuedAt : nat;
  expiresAt : nat
}.

Inductive Failure := Invalid | Expired.

(** Modelled from the spec: [Issue(userId) -> Session]. *)
Definition Issue (now : nat) (userId : nat) : Session :=
  let expiry := now + session_ttl in
  {| token := {| token_userId := userId; token_expiresAt := expiry;
                 token_tag := issuer_tag userId expiry |};
     issuedAt := now; expiresAt := expiry |}.

(** Modelled from the spec: [Verify(token) -> userId | Fails(Invalid |
    Expired)]. *)
Definition Verify (now : nat) (t : Token) : Failure + nat :=
  if decide (token_tag t = issuer_tag (token_userId t) (token_expiresAt t))
  then if (token_expiresAt t <? now)%nat then inl Expired
       else inr (token_userId t)
  else inl Invalid.

End issuer.
End SessionIssuer.

Module AuthCore.
Section core.
Context `{policy : Policy}.

(** The error kinds of the core. *)
Inductive AuthError :=
| InvalidInput
| OtpNotFound
| OtpExpired
| OtpMismatch
| OtpAttemptsExhausted
| ProviderDisabled
| MissingProviderEmail
| ProviderConflict
| SessionIssuanceFailure.

(** Modelled from the spec: the state the flows share, the pending
    challenges and the identity table, and the codes handed to the
    mailer. *)
Record State := {
  otps : gmap string OtpStore.PendingOtp;
  identities : IdentityResolver.Store;
  outbox : list (string * string)
}.

Definition initial : State :=
  {| otps := ∅; identities := IdentityResolver.empty; outbox := [] |}.

Definition with_otps (o : gmap string OtpStore.PendingOtp) (st : State)
  : State :=
  {| otps := o; identities := identities st; outbox := outbox st |}.

Definition with_identities (ids : IdentityResolver.Store) (st : State)
  : State :=
  {| otps := otps st; identities := ids; outbox := outbox st |}.

Definition of_otp_failure (f : OtpStore.Failure) : AuthError :=
  match f with
  | OtpStore.NotFound => OtpNotFound
  | OtpStore.Expired => OtpExpired
  | OtpStore.Mismatch => OtpMismatch
  | OtpStore.AttemptsExhausted => OtpAttemptsExhausted
  end.

(** Modelled from the spec: [RequestOtp(email)]. *)
Definition RequestOtp (now : nat) (fresh email : string) (st : State)
  : (AuthError + unit) * State :=
  if valid_email email then
    let '(code, o) := OtpStore.Create now fresh email (otps st) in
    (inr tt,
     {| otps := o; identities := identities st;
        outbox := outbox st ++ [(email, code)] |})
  else (inl InvalidInput, st).

(** Modelled from the spec: [ConfirmOtp(email, code)]. *)
Definition ConfirmOtp (now : nat) (email code : string) (st : State)
  : (AuthError + SessionIssuer.Session) * State :=
  match OtpStore.Consume now email code (otps st) with
  | (inl f, o) => (inl (of_otp_failure f), with_otps o st)
  | (inr _, o) =>
      let '(u, ids) :=
        IdentityResolver.ResolveByEmail email (identities st) in
      (inr (SessionIssuer.Issue now (IdentityResolver.userId u)),
       with_identities ids (with_otps o st))
  end.

(** Modelled from the spec: [CompleteOAuth(email, provider,
    providerSubjectId, displayName, avatarUrl)]. *)
Definition CompleteOAuth (now : nat) (email : string)
    (provider : AuthProvider) (providerSubjectId : string)
    (name : string) (avatar : option string) (st : State)
  : (AuthError + SessionIssuer.Session) * State :=
  if bool_decide (email = "") then (inl MissingProviderEmail, st)
  else
    match IdentityResolver.ResolveOrLink link_policy email provider
            providerSubjectId name avatar (identities st) with
    | (inl IdentityResolver.ProviderConflict, ids) =>
        (inl ProviderConflict, with_identities ids st)
    | (inr u, ids) =>
        (inr (SessionIssuer.Issue now (IdentityResolver.userId u)),
         with_identities ids st)
    end.

(** The operations of the core: the three flows and the operations of the
    components they call. *)
Inductive Operation :=
| OpRequestOtp (now : nat) (fresh email : string)
| OpConfirmOtp (now : nat) (email code : string)
| OpCompleteOAuth (now : nat) (email : string) (provider : AuthProvider)
    (providerSubjectId name : string) (avatar : option string)
| OpCreate (now : nat) (fresh email : string)
| OpConsume (now : nat) (email code : string)
| OpReap (now : nat)
| OpResolveByEmail (email : string)
| OpResolveOrLink (p : LinkPolicy) (email : string)
    (provider : AuthProvider) (providerSubjectId name : string)
    (avatar : option string)
| OpIssue (now userId : nat)
| OpVerify (now : nat) (t : SessionIssuer.Token).

(** The state an operation leaves behind. *)
Definition step (op : Operation) (st : State) : State :=
  match op with
  | OpRequestOtp now fresh email => (RequestOtp now fresh email st).2
  | OpConfirmOtp now email code => (ConfirmOtp now email code st).2
  | OpCompleteOAuth now email provider sub name avatar =>
      (CompleteOAuth now email provider sub name avatar st).2
  | OpCreate now fresh email =>
      with_otps (OtpStore.Create now fresh email (otps st)).2 st
  | OpConsume now email code =>
      with_otps (OtpStore.Consume now email code (otps st)).2 st
  | OpReap now => with_otps (OtpStore.reap now (otps st)) st
  | OpResolveByEmail email =>
      with_identities
        (IdentityResolver.ResolveByEmail email (identities st)).2 st
  | OpResolveOrLink p email provider sub name avatar =>
      with_identities
        (IdentityResolver.ResolveOrLink p email provider sub name avatar
           (identities st)).2 st
  | OpIssue _ _ => st
  | OpVerify _ _ => st
  end.

Definition run (ops : list Operation) (st : State) : State :=
  foldl (λ s op, step op s) st ops.

(** Whether an operation issues a challenge under the key [key]. *)
Definition requests_otp_for (key : string) (op : Operation) : Prop :=
  match op with
  | OpRequestOtp _ _ email | OpCreate _ _ email =>
      OtpStore.normalize email = key
  | _ => False
  end.

End core.
End AuthCore.

(** ** The invariant of the identity table *)

Module IdentityInvariant.
Import IdentityResolver.







End IdentityInvariant.

(** ** Concrete instances, for running the definitions *)

Definition provider_name (p : AuthProvider) : string :=
  match p with
  | GITHUB => "GITHUB"
  | GITLAB => "GITLAB"
  | GOOGLE => "GOOGLE"
  end.

(** A small first-provider-wins login: it remembers the provider each
    email signed up with and turns the other providers away, naming the
    owner in its error. *)
Definition sample_login (email name : string) (picture : option string)
    (p : AuthProvider) (s : list (string * AuthProvider))
  : (Exception + (string * string)) * list (string * AuthProvider) :=
  match list_find (λ x, x.1 = email) s with
  | Some (_, (_, owner)) =>
      if decide (owner = p) then (inr (email, "token"), s)
      else (inl (HttpException
                   ("This email is registered through " +:+
                    provider_name owner) 401), s)
  | None => (inr (email, "token"), (s ++ [(email, p)])%list)
  end.

Definition sample_service : AuthService :=
  {| ServiceState := list (string * AuthProvider);
     UserAuthenticatedResponse := string * string;
     User := string;
     service_sendOtp := λ _ s, (inr tt, s);
     service_validateOtp := λ email _ s, (inr (email, "token"), s);
     service_handleOAuthLogin := sample_login;
     user_of := fst |}.

Definition sample_profile (email : string) : AuthController.Profile :=
  {| AuthController.emails :=
       Some [ {| AuthController.value := email |} ];
     AuthController.displayName := "Bob";
     AuthController.photos := Some [];
     AuthController.avatarUrl := None |}.

(** The same profile as a provider that sends no [photos] key leaves it. *)
Definition profile_without_photos (email : string)
  : AuthController.Profile :=
  {| AuthController.emails :=
       Some [ {| AuthController.value := email |} ];
     AuthController.displayName := "Bob";
     AuthController.photos := None;
     AuthController.avatarUrl := None |}.

(** A request arriving when ["b@x.com"] already signed up through
    [owner]. *)
Definition conflict_world (owner : AuthProvider)
  : AuthController.World (svc := sample_service) :=
  AuthController.fresh_world (svc := sample_service) [("b@x.com", owner)].

Definition sample_policy : Policy :=
  {| otp_ttl := 300;
     max_attempts := 3;
     session_ttl := 3600;
     link_policy := ForbidSilentLinking;
     valid_email := λ e, bool_decide (e ≠ "");
     Tag := nat;
     issuer_tag := λ userId expiry, userId + 2 * expiry |}.


(** The identity table after Bob's first login, through GitHub. *)
Definition bob : IdentityResolver.UserIdentity :=
  {| IdentityResolver.userId := 0;
     IdentityResolver.email := "b@x.com";
     IdentityResolver.displayName := Some "Bob";
     IdentityResolver.avatarUrl := None;
     IdentityResolver.linkedProviders := {[(GITHUB, "gh123")]} |}.

Definition bob_store : IdentityResolver.Store :=
  (IdentityResolver.ResolveOrLink ForbidSilentLinking "b@x.com" GITHUB
     "gh123" "Bob" None IdentityResolver.empty).2.


(** Two logins through GitHub with one GitHub account, ["gh1"], whose
    email changed in between. *)
Definition login_before_email_change
  : AuthCore.Operation (policy := sample_policy) :=
  AuthCore.OpCompleteOAuth 0 "a@x.com" GITHUB "gh1" "Ann" None.

Definition login_after_email_change
  : AuthCore.Operation (policy := sample_policy) :=
  AuthCore.OpCompleteOAuth 1 "b@x.com" GITHUB "gh1" "Ann" None.


(** A challenge for ["A@x.com"] with code ["123456"], after two wrong
    guesses. *)
Definition two_wrong_guesses : gmap string OtpStore.PendingOtp :=
  (OtpStore.Consume 2 "a@x.com" "000001"
     (OtpStore.Consume 1 "a@x.com" "000000"
        (OtpStore.Create (policy := sample_policy) 0 "123456" "A@x.com"
           ∅).2).2).2.

(** A deployment with GitLab switched off. *)
Definition sample_factories : StrategyFactories :=
  {| githubOAuthStrategyFactory_isOAuthEnabled := true;
     gitlabOAuthStrategyFactory_isOAuthEnabled := false;
     googleOAuthStrategyFactory_isOAuthEnabled := true |}.

(** A profile with a second email and two photos, and one that only has
    the first of each. *)
Definition long_profile : AuthController.Profile :=
  {| AuthController.emails :=
       Some [ {| AuthController.value := "b@x.com" |};
              {| AuthController.value := "bob@work.example" |} ];
     AuthController.displayName := "Bob";
     AuthController.photos :=
       Some [ {| AuthController.value := "https://img.example/1.png" |};
              {| AuthController.value := "https://img.example/2.png" |} ];
     AuthController.avatarUrl := Some "https://img.example/a.png" |}.

Definition short_profile : AuthController.Profile :=
  {| AuthController.emails :=
       Some [ {| AuthController.value := "b@x.com" |} ];
     AuthController.displayName := "Bob";
     AuthController.photos :=
       Some [ {| AuthController.value := "https://img.example/1.png" |} ];
     AuthController.avatarUrl := None |}.

(* ===================================================================== *)
(** * Part II: properties                                                *)
(* ===================================================================== *)

(** ** The controller *)

Section controller_properties.
Context `{svc : AuthService}.
Import AuthController.

Lemma login_call_recorded email name picture p w :
  login_calls (authService_handleOAuthLogin email name picture p w).2 =
  record_call email name picture p w.
Proof.
  unfold authService_handleOAuthLogin.
  by destruct (service_handleOAuthLogin _ _ _ _ _).
Qed.

Lemma login_call_changes_world email name picture p w r :
  authService_handleOAuthLogin email name picture p w ≠ (r, w).
Proof.
  intros Heq.
  pose proof (login_call_recorded email name picture p w) as Hc.
  rewrite Heq in Hc. simpl in Hc. unfold record_call in Hc.
  apply (f_equal length) in Hc. rewrite length_app in Hc. simpl in Hc. lia.
Qed.

Lemma handleOAuthProcess_failure email name picture p w e s' :
  service_handleOAuthLogin email name picture p (service w) = (inl e, s') →
  handleOAuthProcess email name picture p w =
  (inr tt, after_failure email name picture p s' w).
Proof.
  intros Hs.
  unfold handleOAuthProcess, try_catch, bind, authService_handleOAuthLogin.
  by rewrite Hs.
Qed.

Lemma handleOAuthProcess_success email name picture p w data s' :
  service_handleOAuthLogin email name picture p (service w) =
    (inr data, s') →
  handleOAuthProcess email name picture p w =
  (inr tt,
   {| service := s';
      response := (response w ++ [Cookie data]) ++
                  [OAuthSuccessRedirect (user_of data)];
      logged := logged w;
      login_calls := record_call email name picture p w |}).
Proof.
  intros Hs.
  unfold handleOAuthProcess, try_catch, bind, authService_handleOAuthLogin.
  by rewrite Hs.
Qed.

Lemma handleOAuthProcess_resolves email name picture p w :
  (handleOAuthProcess email name picture p w).1 = inr tt.
Proof.
  destruct (service_handleOAuthLogin email name picture p (service w))
    as [[e|data] s'] eqn:Hs.
  - by rewrite (handleOAuthProcess_failure _ _ _ _ _ _ _ Hs).
  - by rewrite (handleOAuthProcess_success _ _ _ _ _ _ _ Hs).
Qed.

Lemma handleOAuthProcess_calls email name picture p w :
  login_calls (handleOAuthProcess email name picture p w).2 =
  record_call email name picture p w.
Proof.
  destruct (service_handleOAuthLogin email name picture p (service w))
    as [[e|data] s'] eqn:Hs.
  - by rewrite (handleOAuthProcess_failure _ _ _ _ _ _ _ Hs).
  - by rewrite (handleOAuthProcess_success _ _ _ _ _ _ _ Hs).
Qed.

(** [validateOtp] sets the cookie only for a validated code; an error of
    the service goes to the caller with the response untouched. *)
Lemma validateOtp_failure email otp w e s' :
  service_validateOtp email otp (service w) = (inl e, s') →
  validateOtp email otp w =
  (inl e, {| service := s'; response := response w; logged := logged w;
             login_calls := login_calls w |}).
Proof.
  intros Hs. unfold validateOtp, bind, authService_validateOtp.
  by rewrite Hs.
Qed.

Lemma validateOtp_success email otp w data s' :
  service_validateOtp email otp (service w) = (inr data, s') →
  validateOtp email otp w =
  (inr (user_of data),
   {| service := s'; response := (response w ++ [Cookie data])%list;
      logged := logged w; login_calls := login_calls w |}).
Proof.
  intros Hs. unfold validateOtp, bind, authService_validateOtp.
  by rewrite Hs.
Qed.

Lemma github_missing_emails u w :
  emails u = None → githubOAuthCallback u w = (inl type_error, w).
Proof. intros H. unfold githubOAuthCallback. by rewrite H. Qed.

Lemma gitlab_missing_emails u w :
  emails u = None → gitlabOAuthCallback u w = (inl type_error, w).
Proof. intros H. unfold gitlabOAuthCallback. by rewrite H. Qed.

Lemma google_missing_emails u w :
  emails u = None → googleOAuthCallback u w = (inl type_error, w).
Proof. intros H. unfold googleOAuthCallback. by rewrite H. Qed.

Lemma github_without_emails u w :
  emails u = Some [] → githubOAuthCallback u w = (inl missing_email, w).
Proof. intros H. unfold githubOAuthCallback. by rewrite H. Qed.

Lemma gitlab_without_emails u w :
  emails u = Some [] → gitlabOAuthCallback u w = (inl missing_email, w).
Proof. intros H. unfold gitlabOAuthCallback. by rewrite H. Qed.

Lemma google_without_emails u w :
  emails u = Some [] → googleOAuthCallback u w = (inl missing_email, w).
Proof. intros H. unfold googleOAuthCallback. by rewrite H. Qed.

Lemma github_with_email u w e es ps :
  emails u = Some (e :: es) → photos u = Some ps →
  githubOAuthCallback u w =
  authService_handleOAuthLogin (value e) (displayName u)
    (value <$> ps !! 0) GITHUB w.
Proof. intros H Hp. unfold githubOAuthCallback. by rewrite H, Hp. Qed.

Lemma github_missing_photos u w e es :
  emails u = Some (e :: es) → photos u = None →
  githubOAuthCallback u w = (inl type_error, w).
Proof. intros H Hp. unfold githubOAuthCallback. by rewrite H, Hp. Qed.

Lemma gitlab_with_email u w e es :
  emails u = Some (e :: es) →
  gitlabOAuthCallback u w =
  (inr tt,
   (handleOAuthProcess (value e) (displayName u) (avatarUrl u) GITLAB w).2).
Proof. intros H. unfold gitlabOAuthCallback. by rewrite H. Qed.

Lemma google_with_email u w e es ps :
  emails u = Some (e :: es) → photos u = Some ps →
  googleOAuthCallback u w =
  (inr tt,
   (handleOAuthProcess (value e) (displayName u)
      (value <$> ps !! 0) GOOGLE w).2).
Proof. intros H Hp. unfold googleOAuthCallback. by rewrite H, Hp. Qed.

Lemma google_missing_photos u w e es :
  emails u = Some (e :: es) → photos u = None →
  googleOAuthCallback u w = (inl type_error, w).
Proof. intros H Hp. unfold googleOAuthCallback. by rewrite H, Hp. Qed.

(** C6: each of the three OAuth callbacks fails with the missing-email
    error, having touched neither the service (no login call, so no
    identity resolution and no session issuance) nor the response, exactly
    when the provider yielded an empty email list.  For GitLab and Google
    the outcome alone already decides it; for GitHub, whose callback hands
    back whatever the service raises, the outcome decides it as soon as the
    service itself never raises that very exception.  (A missing [emails]
    key is not an empty list: it ends in a [TypeError].) *)
Theorem missing_email_exactly_when_no_emails (u : Profile) (w : World) :
  (githubOAuthCallback u w = (inl missing_email, w) ↔ emails u = Some []) ∧
  (gitlabOAuthCallback u w = (inl missing_email, w) ↔ emails u = Some []) ∧
  (googleOAuthCallback u w = (inl missing_email, w) ↔ emails u = Some []) ∧
  ((gitlabOAuthCallback u w).1 = inl missing_email ↔ emails u = Some []) ∧
  ((googleOAuthCallback u w).1 = inl missing_email ↔ emails u = Some []) ∧
  ((∀ email name picture s,
      (service_handleOAuthLogin email name picture GITHUB s).1 ≠
      inl missing_email) →
   ((githubOAuthCallback u w).1 = inl missing_email ↔
    emails u = Some [])).
Proof.
  destruct (emails u) as [[|e0 es]|] eqn:He.
  - rewrite (github_without_emails u w He), (gitlab_without_emails u w He),
      (google_without_emails u w He). simpl. naive_solver.
  - rewrite (gitlab_with_email u w e0 es He).
    destruct (photos u) as [ps|] eqn:Hp.
    + rewrite (github_with_email u w e0 es ps He Hp),
        (google_with_email u w e0 es ps He Hp).
      simpl. split_and!; try done.
      * split; [|done]. intros H. by apply login_call_changes_world in H.
      * intros Hsvc. split; [|done]. intros H. exfalso. revert H.
        unfold authService_handleOAuthLogin.
        specialize (Hsvc (value e0) (displayName u) (value <$> ps !! 0)
                      (service w)).
        by destruct (service_handleOAuthLogin _ _ _ _ _).
    + rewrite (github_missing_photos u w e0 es He Hp),
        (google_missing_photos u w e0 es He Hp).
      simpl. by split_and!.
  - rewrite (github_missing_emails u w He), (gitlab_missing_emails u w He),
      (google_missing_emails u w He). simpl. by split_and!.
Qed.

(** C8: once the email is there, the GitLab and the Google callback never
    let an error of the login resolution out: it becomes the failure
    redirect with the fixed text (and a log line), whereas the GitHub
    callback has no handler and lets the very same error out, leaving the
    response untouched. *)
Theorem gitlab_google_catch_github_propagates
    (u : Profile) (w : World) (e0 : Entry) (es : list Entry) :
  emails u = Some (e0 :: es) →
  (gitlabOAuthCallback u w).1 = inr tt ∧
  (∀ ps, photos u = Some ps → (googleOAuthCallback u w).1 = inr tt) ∧
  (∀ e s',
     service_handleOAuthLogin (value e0) (displayName u) (avatarUrl u)
       GITLAB (service w) = (inl e, s') →
     gitlabOAuthCallback u w =
     (inr tt,
      after_failure (value e0) (displayName u) (avatarUrl u) GITLAB s' w)) ∧
  (∀ ps e s',
     photos u = Some ps →
     service_handleOAuthLogin (value e0) (displayName u)
       (value <$> ps !! 0) GOOGLE (service w) = (inl e, s') →
     googleOAuthCallback u w =
     (inr tt,
      after_failure (value e0) (displayName u)
        (value <$> ps !! 0) GOOGLE s' w)) ∧
  (∀ ps e s',
     photos u = Some ps →
     service_handleOAuthLogin (value e0) (displayName u)
       (value <$> ps !! 0) GITHUB (service w) = (inl e, s') →
     githubOAuthCallback u w =
     (inl e,
      {| service := s'; response := response w; logged := logged w;
         login_calls :=
           record_call (value e0) (displayName u)
             (value <$> ps !! 0) GITHUB w |})).
Proof.
  intros He. rewrite (gitlab_with_email u w e0 es He). split_and!.
  - done.
  - intros ps Hp. by rewrite (google_with_email u w e0 es ps He Hp).
  - intros e s' Hs. by rewrite (handleOAuthProcess_failure _ _ _ _ _ _ _ Hs).
  - intros ps e s' Hp Hs. rewrite (google_with_email u w e0 es ps He Hp).
    by rewrite (handleOAuthProcess_failure _ _ _ _ _ _ _ Hs).
  - intros ps e s' Hp Hs. rewrite (github_with_email u w e0 es ps He Hp).
    unfold authService_handleOAuthLogin. by rewrite Hs.
Qed.

(** C10: with an email but no photo, the GitHub and the Google callback do
    not reject: the picture is simply absent and the login goes to the
    service with no picture.  With an empty photos list, the callback
    itself rejects only for an empty email list. *)
Theorem empty_photos_do_not_reject (u : Profile) (w : World) :
  photos u = Some [] →
  (emails u = Some [] →
     githubOAuthCallback u w = (inl missing_email, w) ∧
     googleOAuthCallback u w = (inl missing_email, w)) ∧
  (∀ e0 es, emails u = Some (e0 :: es) →
     githubOAuthCallback u w =
       authService_handleOAuthLogin (value e0) (displayName u) None
         GITHUB w ∧
     login_calls (githubOAuthCallback u w).2 =
       record_call (value e0) (displayName u) None GITHUB w ∧
     (googleOAuthCallback u w).1 = inr tt ∧
     (googleOAuthCallback u w).2 =
       (handleOAuthProcess (value e0) (displayName u) None GOOGLE w).2 ∧
     login_calls (googleOAuthCallback u w).2 =
       record_call (value e0) (displayName u) None GOOGLE w).
Proof.
  intros Hp. split.
  - intros He. by rewrite (github_without_emails u w He),
      (google_without_emails u w He).
  - intros e0 es He.
    rewrite (github_with_email u w e0 es [] He Hp),
      (google_with_email u w e0 es [] He Hp). simpl.
    by rewrite login_call_recorded, handleOAuthProcess_calls.
Qed.

(** C7, as the code has it: through [handleOAuthProcess], that is for the
    GitLab and the Google callback, two logins that the service turns down
    look the same from outside, whoever owns the account and whatever the
    error: the failure redirect with the fixed text.  The log gets the same
    fixed text; the error itself is kept nowhere. *)
Theorem redirect_failure_output_is_fixed
    (u : Profile) (e0 : Entry) (es : list Entry) :
  emails u = Some (e0 :: es) →
  (∀ w1 w2 e1 s1 e2 s2,
     response w1 = response w2 →
     service_handleOAuthLogin (value e0) (displayName u) (avatarUrl u)
       GITLAB (service w1) = (inl e1, s1) →
     service_handleOAuthLogin (value e0) (displayName u) (avatarUrl u)
       GITLAB (service w2) = (inl e2, s2) →
     external_view (gitlabOAuthCallback u w1) =
       external_view (gitlabOAuthCallback u w2) ∧
     external_view (gitlabOAuthCallback u w1) =
       (inr tt,
        (response w1 ++
           [OAuthFailureRedirect different_provider_message])%list) ∧
     logged (gitlabOAuthCallback u w1).2 =
       (logged w1 ++ [different_provider_message])%list ∧
     logged (gitlabOAuthCallback u w2).2 =
       (logged w2 ++ [different_provider_message])%list) ∧
  (∀ ps w1 w2 e1 s1 e2 s2,
     photos u = Some ps →
     response w1 = response w2 →
     service_handleOAuthLogin (value e0) (displayName u)
       (value <$> ps !! 0) GOOGLE (service w1) = (inl e1, s1) →
     service_handleOAuthLogin (value e0) (displayName u)
       (value <$> ps !! 0) GOOGLE (service w2) = (inl e2, s2) →
     external_view (googleOAuthCallback u w1) =
       external_view (googleOAuthCallback u w2) ∧
     external_view (googleOAuthCallback u w1) =
       (inr tt,
        (response w1 ++
           [OAuthFailureRedirect different_provider_message])%list) ∧
     logged (googleOAuthCallback u w1).2 =
       (logged w1 ++ [different_provider_message])%list ∧
     logged (googleOAuthCallback u w2).2 =
       (logged w2 ++ [different_provider_message])%list).
Proof.
  intros He. split.
  - intros w1 w2 e1 s1 e2 s2 Hr H1 H2.
    rewrite !(gitlab_with_email u _ e0 es He).
    rewrite (handleOAuthProcess_failure _ _ _ _ _ _ _ H1),
      (handleOAuthProcess_failure _ _ _ _ _ _ _ H2).
    unfold external_view. simpl. by rewrite Hr.
  - intros ps w1 w2 e1 s1 e2 s2 Hp Hr H1 H2.
    rewrite !(google_with_email u _ e0 es ps He Hp).
    rewrite (handleOAuthProcess_failure _ _ _ _ _ _ _ H1),
      (handleOAuthProcess_failure _ _ _ _ _ _ _ H2).
    unfold external_view. simpl. by rewrite Hr.
Qed.

End controller_properties.

(** ** The controller on concrete requests *)

Section controller_examples.
Import AuthController.

(** C7 fails as stated.  Through the GitHub callback two provider
    conflicts over the same email are told apart from outside: the caller
    gets the service's own error, which here names the owner.  And where
    the failure is caught (GitLab), the text sent to the caller is the very
    text that is logged. *)
Lemma github_failure_output_depends_on_owner :
  (githubOAuthCallback (sample_profile "b@x.com")
     (conflict_world GITLAB)).1 =
    inl (HttpException "This email is registered through GITLAB" 401) ∧
  (githubOAuthCallback (sample_profile "b@x.com")
     (conflict_world GOOGLE)).1 =
    inl (HttpException "This email is registered through GOOGLE" 401) ∧
  external_view
    (githubOAuthCallback (sample_profile "b@x.com")
       (conflict_world GITLAB)) ≠
  external_view
    (githubOAuthCallback (sample_profile "b@x.com")
       (conflict_world GOOGLE)) ∧
  response (gitlabOAuthCallback (sample_profile "b@x.com")
              (conflict_world GOOGLE)).2 =
    [OAuthFailureRedirect different_provider_message] ∧
  logged (gitlabOAuthCallback (sample_profile "b@x.com")
            (conflict_world GOOGLE)).2 =
    [different_provider_message].
Proof. split_and!; [reflexivity | reflexivity | discriminate | reflexivity..]. Qed.

Lemma redirect_failure_output_is_fixed_witness :
  external_view
    (gitlabOAuthCallback (sample_profile "b@x.com")
       (conflict_world GITHUB)) =
  external_view
    (gitlabOAuthCallback (sample_profile "b@x.com")
       (conflict_world GOOGLE)) ∧
  external_view
    (googleOAuthCallback (sample_profile "b@x.com")
       (conflict_world GITHUB)) =
  external_view
    (googleOAuthCallback (sample_profile "b@x.com")
       (conflict_world GITLAB)).
Proof.
  destruct (redirect_failure_output_is_fixed (svc := sample_service)
              (sample_profile "b@x.com") {| value := "b@x.com" |} []
              eq_refl) as [Hgitlab Hgoogle].
  split.
  - exact (proj1 (Hgitlab (conflict_world GITHUB) (conflict_world GOOGLE)
                    _ _ _ _ eq_refl eq_refl eq_refl)).
  - exact (proj1 (Hgoogle [] (conflict_world GITHUB)
                    (conflict_world GITLAB)
                    _ _ _ _ eq_refl eq_refl eq_refl eq_refl)).
Defined.

Lemma missing_email_exactly_when_no_emails_witness :
  (githubOAuthCallback (sample_profile "b@x.com")
     (conflict_world GITLAB)).1 = inl missing_email ↔
  emails (sample_profile "b@x.com") = Some [].
Proof.
  apply (missing_email_exactly_when_no_emails (svc := sample_service)).
  intros email name picture s. simpl. unfold sample_login.
  destruct (list_find _ s) as [[i [x owner]]|]; [|done].
  by destruct (decide (owner = GITHUB)).
Defined.

Lemma gitlab_google_catch_github_propagates_witness :
  gitlabOAuthCallback (sample_profile "b@x.com") (conflict_world GITHUB) =
    (inr tt,
     after_failure (svc := sample_service) "b@x.com" "Bob" None GITLAB
       [("b@x.com", GITHUB)] (conflict_world GITHUB)) ∧
  (githubOAuthCallback (sample_profile "b@x.com")
     (conflict_world GOOGLE)).1 =
    inl (HttpException "This email is registered through GOOGLE" 401).
Proof.
  split.
  - destruct (gitlab_google_catch_github_propagates (svc := sample_service)
                (sample_profile "b@x.com") (conflict_world GITHUB)
                {| value := "b@x.com" |} [] eq_refl)
      as (_ & _ & Hgitlab & _ & _).
    exact (Hgitlab _ _ eq_refl).
  - destruct (gitlab_google_catch_github_propagates (svc := sample_service)
                (sample_profile "b@x.com") (conflict_world GOOGLE)
                {| value := "b@x.com" |} [] eq_refl)
      as (_ & _ & _ & _ & Hgithub).
    by rewrite (Hgithub [] _ _ eq_refl eq_refl).
Defined.

Lemma empty_photos_do_not_reject_witness :
  (googleOAuthCallback (sample_profile "b@x.com")
     (fresh_world (svc := sample_service) [])).1 = inr tt ∧
  login_calls
    (githubOAuthCallback (sample_profile "b@x.com")
       (fresh_world (svc := sample_service) [])).2 =
  [{| call_email := "b@x.com"; call_name := "Bob";
      call_profilePictureUrl := None; call_provider := GITHUB |}].
Proof.
  destruct (empty_photos_do_not_reject (svc := sample_service)
              (sample_profile "b@x.com")
              (fresh_world (svc := sample_service) []) eq_refl)
    as [_ H].
  destruct (H {| value := "b@x.com" |} [] eq_refl)
    as (_ & Hcalls & Hgoogle & _ & _).
  split; [exact Hgoogle | exact Hcalls].
Defined.

End controller_examples.

(** ** OtpStore *)

Section otp_properties.
Context `{policy : Policy}.
Import OtpStore.

Lemma differ_false (a b : string) : differ a b = false ↔ a = b.
Proof.
  revert b. induction a as [|x a IH]; intros [|y b]; simpl; try done.
  rewrite orb_false_iff, negb_false_iff, Ascii.eqb_eq, IH.
  split; [intros [-> ->]; done | intros [= -> ->]; done].
Qed.

Lemma constant_time_eq_true (a b : string) :
  constant_time_eq a b = true ↔ a = b.
Proof. unfold constant_time_eq. by rewrite negb_true_iff, differ_false. Qed.

Lemma constant_time_eq_false (a b : string) :
  constant_time_eq a b = false ↔ a ≠ b.
Proof.
  rewrite <- constant_time_eq_true. by destruct (constant_time_eq a b).
Qed.

Lemma Consume_not_found now email candidate (s : gmap string PendingOtp) :
  s !! normalize email = None →
  Consume now email candidate s = (inl NotFound, s).
Proof. intros H. unfold Consume. by rewrite H. Qed.

Lemma Consume_expired now email candidate (s : gmap string PendingOtp) p :
  s !! normalize email = Some p → expiresAt p < now →
  Consume now email candidate s = (inl Expired, delete (normalize email) s).
Proof.
  intros H Hlt. unfold Consume. rewrite H.
  by rewrite (proj2 (Nat.ltb_lt _ _) Hlt).
Qed.

Lemma Consume_match now email candidate (s : gmap string PendingOtp) p :
  s !! normalize email = Some p → now ≤ expiresAt p → candidate = code p →
  Consume now email candidate s = (inr tt, delete (normalize email) s).
Proof.
  intros H Hle Hc. unfold Consume. rewrite H.
  rewrite (proj2 (Nat.ltb_ge _ _) Hle).
  by rewrite (proj2 (constant_time_eq_true _ _) Hc).
Qed.

Lemma Consume_mismatch now email candidate (s : gmap string PendingOtp) p :
  s !! normalize email = Some p → now ≤ expiresAt p → candidate ≠ code p →
  1 < attemptsRemaining p →
  Consume now email candidate s =
  (inl Mismatch, <[normalize email := decrement p]> s).
Proof.
  intros H Hle Hc Hn. unfold Consume. rewrite H.
  rewrite (proj2 (Nat.ltb_ge _ _) Hle).
  rewrite (proj2 (constant_time_eq_false _ _) Hc).
  destruct (attemptsRemaining (decrement p) =? 0) eqn:E; [|done].
  apply Nat.eqb_eq in E. simpl in E. lia.
Qed.

Lemma Consume_exhausted now email candidate (s : gmap string PendingOtp) p :
  s !! normalize email = Some p → now ≤ expiresAt p → candidate ≠ code p →
  attemptsRemaining p ≤ 1 →
  Consume now email candidate s =
  (inl AttemptsExhausted, delete (normalize email) s).
Proof.
  intros H Hle Hc Hn. unfold Consume. rewrite H.
  rewrite (proj2 (Nat.ltb_ge _ _) Hle).
  rewrite (proj2 (constant_time_eq_false _ _) Hc).
  destruct (attemptsRemaining (decrement p) =? 0) eqn:E; [done|].
  apply Nat.eqb_neq in E. simpl in E. lia.
Qed.

(** [Consume] never brings a challenge into being. *)
Lemma Consume_keeps_absent now email candidate
    (s : gmap string PendingOtp) key :
  s !! key = None → (Consume now email candidate s).2 !! key = None.
Proof.
  intros Hk. unfold Consume.
  destruct (s !! normalize email) as [p|] eqn:Hp; [|done].
  assert (normalize email ≠ key) as Hne by congruence.
  repeat case_match; simpl; try done.
  all: by rewrite ?lookup_delete_ne, ?lookup_insert_ne.
Qed.

(** After [AttemptsExhausted] the challenge is gone. *)
Lemma Consume_exhausted_discards now email candidate
    (s : gmap string PendingOtp) :
  (Consume now email candidate s).1 = inl AttemptsExhausted →
  (Consume now email candidate s).2 !! normalize email = None.
Proof.
  unfold Consume. destruct (s !! normalize email) as [p|]; [|done].
  repeat case_match; simpl; try done.
  intros _. apply lookup_delete_eq.
Qed.

Lemma reap_keeps_absent now (s : gmap string PendingOtp) key :
  s !! key = None → reap now s !! key = None.
Proof.
  intros Hk. unfold reap. apply map_lookup_filter_None. left. done.
Qed.


End otp_properties.

Section otp_flow_properties.
Context `{policy : Policy}.
Import OtpStore AuthCore.

Lemma step_keeps_absent (op : Operation) (st : State) (key : string) :
  ¬ requests_otp_for key op →
  otps st !! key = None → otps (step op st) !! key = None.
Proof.
  intros Hop Hk. destruct op; simpl in *; try done.
  - unfold RequestOtp. destruct (valid_email email0); [|done].
    simpl. by rewrite lookup_insert_ne.
  - unfold ConfirmOtp.
    pose proof (Consume_keeps_absent now email0 code0 _ _ Hk) as Hc.
    destruct (Consume now email0 code0 (otps st)) as [[f|[]] o]; [done|].
    by destruct (IdentityResolver.ResolveByEmail _ _).
  - unfold CompleteOAuth. case_bool_decide; [done|].
    by destruct (IdentityResolver.ResolveOrLink _ _ _ _ _ _ _) as [[[]|u] ids].
  - by rewrite lookup_insert_ne.
  - by apply Consume_keeps_absent.
  - by apply reap_keeps_absent.
Qed.

Lemma run_keeps_absent (ops : list Operation) (st : State) (key : string) :
  Forall (λ op, ¬ requests_otp_for key op) ops →
  otps st !! key = None → otps (run ops st) !! key = None.
Proof.
  intros Hops. revert st.
  induction Hops as [|op ops Hop _ IH]; intros st Hk; [done|].
  simpl. apply IH. by apply step_keeps_absent.
Qed.

Lemma ConfirmOtp_not_found now email candidate (st : State) :
  otps st !! normalize email = None →
  ConfirmOtp now email candidate st = (inl OtpNotFound, st).
Proof.
  intros Hk. unfold ConfirmOtp.
  rewrite (Consume_not_found _ _ _ _ Hk). by destruct st.
Qed.

(** Run one after the other, two confirmations with the right code: the
    first consumes the challenge, the second finds none. *)
Lemma ConfirmOtp_twice now now' email (st : State) p :
  otps st !! normalize email = Some p → now ≤ expiresAt p →
  (∃ session, (ConfirmOtp now email (code p) st).1 = inr session) ∧
  (ConfirmOtp now' email (code p) (ConfirmOtp now email (code p) st).2).1 =
  inl OtpNotFound.
Proof.
  intros Hp Hle. unfold ConfirmOtp at 1 3.
  rewrite (Consume_match now email (code p) _ p Hp Hle eq_refl).
  destruct (IdentityResolver.ResolveByEmail _ _) as [u ids]. simpl.
  split; [by eexists|].
  rewrite ConfirmOtp_not_found; [done|]. simpl. apply lookup_delete_eq.
Qed.

(** C3: [Consume] on its five cases, with the record it leaves or
    discards in each; and once it has answered [AttemptsExhausted], no
    confirmation for that email succeeds, whatever the core does next, as
    long as no new code is requested for it: each one is answered
    [NotFound]. *)
Theorem Consume_cases (now : nat) (email candidate : string)
    (s : gmap string PendingOtp) :
  (s !! normalize email = None →
     Consume now email candidate s = (inl NotFound, s)) ∧
  (∀ p, s !! normalize email = Some p → expiresAt p < now →
     Consume now email candidate s =
     (inl Expired, delete (normalize email) s)) ∧
  (∀ p, s !! normalize email = Some p → now ≤ expiresAt p →
     candidate ≠ code p → 1 < attemptsRemaining p →
     Consume now email candidate s =
     (inl Mismatch,
      <[normalize email :=
          {| OtpStore.email := OtpStore.email p; code := code p;
             expiresAt := expiresAt p;
             attemptsRemaining := attemptsRemaining p - 1 |}]> s)) ∧
  (∀ p, s !! normalize email = Some p → now ≤ expiresAt p →
     candidate ≠ code p → attemptsRemaining p ≤ 1 →
     Consume now email candidate s =
     (inl AttemptsExhausted, delete (normalize email) s)) ∧
  (∀ p, s !! normalize email = Some p → now ≤ expiresAt p →
     candidate = code p →
     Consume now email candidate s =
     (inr tt, delete (normalize email) s)) ∧
  ((Consume now email candidate s).1 = inl AttemptsExhausted →
   ∀ (st : State) (ops : list Operation) (now' : nat) (candidate' : string),
     otps st = (Consume now email candidate s).2 →
     Forall (λ op, ¬ requests_otp_for (normalize email) op) ops →
     Consume now' email candidate' (otps (run ops st)) =
       (inl NotFound, otps (run ops st)) ∧
     ConfirmOtp now' email candidate' (run ops st) =
       (inl OtpNotFound, run ops st)).
Proof.
  split_and!.
  - apply Consume_not_found.
  - intros p. apply Consume_expired.
  - intros p Hp Hle Hc Hn.
    rewrite (Consume_mismatch _ _ _ _ _ Hp Hle Hc Hn).
    unfold decrement. by rewrite Nat.sub_1_r.
  - intros p. apply Consume_exhausted.
  - intros p. apply Consume_match.
  - intros Hex st ops now' candidate' Hst Hops.
    assert (otps (run ops st) !! normalize email = None) as Hk.
    { apply run_keeps_absent; [done|].
      rewrite Hst. by apply Consume_exhausted_discards. }
    split; [by apply Consume_not_found | by apply ConfirmOtp_not_found].
Qed.



End otp_flow_properties.

(** ** SessionIssuer *)

Section issuer_properties.
Context `{policy : Policy}.
Import SessionIssuer.

(** C5: verifying the token of a freshly issued session gives back the
    user id it was issued for, up to and including [expiresAt], and fails
    with [Expired] after it. *)
Theorem Verify_Issue (now now' userId : nat) :
  (now' ≤ expiresAt (Issue now userId) →
     Verify now' (token (Issue now userId)) = inr userId) ∧
  (expiresAt (Issue now userId) < now' →
     Verify now' (token (Issue now userId)) = inl Expired).
Proof.
  unfold Verify, Issue. simpl.
  rewrite decide_True by done.
  split; intros H.
  - by rewrite (proj2 (Nat.ltb_ge _ _) H).
  - by rewrite (proj2 (Nat.ltb_lt _ _) H).
Qed.

End issuer_properties.

(** ** IdentityResolver *)

Section resolver_properties.
Import IdentityResolver IdentityInvariant.



Lemma find_by_email_Some e st i u :
  find_by_email e st = Some (i, u) → users st !! i = Some u ∧ email u = e.
Proof.
  unfold find_by_email. intros H. apply list_find_Some in H.
  by destruct H as (? & ? & _).
Qed.


(** Writing back a row with the same email keeps it the row found for that
    email. *)
Lemma find_by_email_put e st i u u' :
  find_by_email e st = Some (i, u) → email u' = e →
  find_by_email e (put i u' st) = Some (i, u').
Proof.
  unfold find_by_email. intros H He. apply list_find_Some in H.
  destruct H as (Hi & _ & Hbefore).
  apply list_find_Some. simpl. split_and!.
  - apply list_lookup_insert_eq. by eapply lookup_lt_Some.
  - done.
  - intros j y Hj Hlt. apply (Hbefore j y); [|done].
    rewrite list_lookup_insert_ne in Hj by lia. done.
Qed.


Lemma ResolveOrLink_conflict e B subB name avatar st i u :
  find_by_email (canonical e) st = Some (i, u) →
  (B, subB) ∉ linkedProviders u →
  ResolveOrLink ForbidSilentLinking e B subB name avatar st =
  (inl ProviderConflict, st).
Proof.
  intros Hf Hn. unfold ResolveOrLink. rewrite Hf. by rewrite decide_False.
Qed.

Lemma ResolveOrLink_linked policy e A subA name avatar st i u :
  find_by_email (canonical e) st = Some (i, u) →
  (A, subA) ∈ linkedProviders u →
  ResolveOrLink policy e A subA name avatar st =
  (inr (refresh name avatar u), put i (refresh name avatar u) st).
Proof.
  intros Hf Hn. unfold ResolveOrLink. rewrite Hf. by rewrite decide_True.
Qed.

Lemma ResolveOrLink_unseen policy e A subA name avatar st :
  find_by_email (canonical e) st = None →
  ¬ keyed_elsewhere (canonical e) (A, subA) st →
  ResolveOrLink policy e A subA name avatar st =
  (inr {| userId := nextUserId st; email := canonical e;
          displayName := Some name; avatarUrl := avatar;
          linkedProviders := {[(A, subA)]} |},
   add {| userId := nextUserId st; email := canonical e;
          displayName := Some name; avatarUrl := avatar;
          linkedProviders := {[(A, subA)]} |} st).
Proof.
  intros Hf Hk. unfold ResolveOrLink. rewrite Hf. by rewrite decide_False.
Qed.

(** A login that would create an identity with a pair that is another
    record's key is refused, and nothing is written. *)
Lemma ResolveOrLink_pair_taken policy e A subA name avatar st :
  find_by_email (canonical e) st = None →
  keyed_elsewhere (canonical e) (A, subA) st →
  ResolveOrLink policy e A subA name avatar st =
  (inl ProviderConflict, st).
Proof.
  intros Hf Hk. unfold ResolveOrLink. rewrite Hf. by rewrite decide_True.
Qed.













(** C1: where the identity of an email is linked to provider [A] only, a
    login for that email through another provider [B], linking forbidden,
    fails with [ProviderConflict] and leaves the identity table as it was;
    the login through [A] that follows finds the same row and returns the
    same [userId] with the new display name, and the table still has the
    same number of rows. *)
Theorem ResolveOrLink_other_provider_conflicts
    (st : Store) (i : nat) (u : UserIdentity) (e : string)
    (A B : AuthProvider) (subA subB name name' : string)
    (avatar avatar' : option string) :
  find_by_email (canonical e) st = Some (i, u) →
  linkedProviders u = {[(A, subA)]} →
  B ≠ A →
  ResolveOrLink ForbidSilentLinking e B subB name avatar st =
    (inl ProviderConflict, st) ∧
  ResolveOrLink ForbidSilentLinking e A subA name' avatar'
    (ResolveOrLink ForbidSilentLinking e B subB name avatar st).2 =
    (inr (refresh name' avatar' u), put i (refresh name' avatar' u) st) ∧
  userId (refresh name' avatar' u) = userId u ∧
  displayName (refresh name' avatar' u) = Some name' ∧
  length (users (put i (refresh name' avatar' u) st)) = length (users st) ∧
  find_by_email (canonical e) (put i (refresh name' avatar' u) st) =
    Some (i, refresh name' avatar' u).
Proof.
  intros Hf Hl Hne.
  assert (ResolveOrLink ForbidSilentLinking e B subB name avatar st =
          (inl ProviderConflict, st)) as Hconflict.
  { apply (ResolveOrLink_conflict _ _ _ _ _ _ i u); [done|].
    rewrite Hl. intros Hin. apply elem_of_singleton in Hin. congruence. }
  rewrite Hconflict. simpl. split_and!; try done.
  - apply ResolveOrLink_linked; [done|]. rewrite Hl.
    by apply elem_of_singleton.
  - apply length_insert.
  - apply (find_by_email_put _ st i u); [done|].
    by apply find_by_email_Some in Hf as [_ He].
Qed.

End resolver_properties.

(** ** The core as a whole *)

Section core_properties.
Context `{policy : Policy}.
Import AuthCore IdentityInvariant.


(** The OAuth flow turns the resolver's conflict into its own error kind
    and changes nothing. *)
Lemma CompleteOAuth_conflict now e B subB name avatar (st : State) i u :
  link_policy = ForbidSilentLinking → e ≠ "" →
  IdentityResolver.find_by_email (IdentityResolver.canonical e)
    (identities st) = Some (i, u) →
  (B, subB) ∉ IdentityResolver.linkedProviders u →
  CompleteOAuth now e B subB name avatar st = (inl ProviderConflict, st).
Proof.
  intros Hp He Hf Hn. unfold CompleteOAuth.
  rewrite bool_decide_eq_false_2 by done. rewrite Hp.
  rewrite (ResolveOrLink_conflict _ _ _ _ _ _ _ _ Hf Hn). by destruct st.
Qed.

Lemma CompleteOAuth_missing_email now B subB name avatar (st : State) :
  CompleteOAuth now "" B subB name avatar st = (inl MissingProviderEmail, st).
Proof. reflexivity. Qed.




End core_properties.

(** ** The core on concrete runs *)

Section core_examples.
Import AuthCore IdentityInvariant.

Lemma bob_store_users :
  bob_store = {| IdentityResolver.users := [bob];
                 IdentityResolver.nextUserId := 1 |}.
Proof. reflexivity. Qed.


(** A GitHub account whose email changed between two logins is refused
    the second time: its pair is the key of the first identity, and no
    second identity is written. *)
Lemma login_after_email_change_refused :
  step login_after_email_change (step login_before_email_change initial) =
  step login_before_email_change initial ∧
  length
    (IdentityResolver.users
       (identities (step login_before_email_change initial))) = 1.
Proof.
  split; [|reflexivity].
  unfold login_after_email_change. simpl.
  unfold CompleteOAuth. simpl.
  rewrite (ResolveOrLink_pair_taken ForbidSilentLinking "b@x.com" GITHUB
             "gh1" "Ann" None); [done|reflexivity|].
  apply Exists_exists.
  exists {| IdentityResolver.userId := 0;
            IdentityResolver.email := "a@x.com";
            IdentityResolver.displayName := Some "Ann";
            IdentityResolver.avatarUrl := None;
            IdentityResolver.linkedProviders := {[(GITHUB, "gh1")]} |}.
  split; [apply elem_of_cons; by left|].
  split; [|done]. simpl. by apply elem_of_singleton.
Qed.


Lemma ResolveOrLink_other_provider_conflicts_witness :
  IdentityResolver.ResolveOrLink ForbidSilentLinking "B@X.com" GOOGLE
    "go456" "Bob" None bob_store =
    (inl IdentityResolver.ProviderConflict, bob_store) ∧
  IdentityResolver.userId (IdentityResolver.refresh "Robert" None bob) = 0.
Proof.
  destruct (ResolveOrLink_other_provider_conflicts bob_store 0 bob
              "B@X.com" GITHUB GOOGLE "gh123" "go456" "Bob" "Robert"
              None None eq_refl eq_refl)
    as (Hconflict & _ & Hid & _); [done|].
  split; [exact Hconflict | exact Hid].
Defined.

Lemma Consume_cases_witness :
  (OtpStore.Consume 3 "a@x.com" "000002"
     two_wrong_guesses).1 = inl OtpStore.AttemptsExhausted ∧
  ConfirmOtp (policy := sample_policy) 4 "a@x.com" "123456"
    (with_otps
       (OtpStore.Consume 3 "a@x.com" "000002"
          two_wrong_guesses).2 initial) =
  (inl OtpNotFound,
   with_otps
     (OtpStore.Consume 3 "a@x.com" "000002"
        two_wrong_guesses).2 initial).
Proof.
  assert ((OtpStore.Consume 3 "a@x.com" "000002"
             two_wrong_guesses).1 = inl OtpStore.AttemptsExhausted)
    as Hex by (vm_compute; reflexivity).
  split; [exact Hex|].
  destruct (Consume_cases (policy := sample_policy) 3 "a@x.com" "000002"
              two_wrong_guesses) as (_ & _ & _ & _ & _ & Hafter).
  exact (proj2 (Hafter Hex
                  (with_otps
                     (OtpStore.Consume 3
                        "a@x.com" "000002" two_wrong_guesses).2 initial)
                  [] 4 "123456" eq_refl (Forall_nil_2 _))).
Defined.



Lemma Verify_Issue_witness :
  SessionIssuer.Verify (policy := sample_policy) 3600
    (SessionIssuer.token (SessionIssuer.Issue 0 7)) = inr 7 ∧
  SessionIssuer.Verify (policy := sample_policy) 3601
    (SessionIssuer.token (SessionIssuer.Issue 0 7)) =
  inl SessionIssuer.Expired.
Proof.
  split.
  - apply (proj1 (Verify_Issue (policy := sample_policy) 0 3600 7)).
    simpl. lia.
  - apply (proj2 (Verify_Issue (policy := sample_policy) 0 3601 7)).
    simpl. lia.
Defined.

End core_examples.

(** ** Further properties of the controller *)

Section login_properties.
Context `{factories : StrategyFactories}.
Import AuthLogin.

(** X1: a route that starts an OAuth flow goes through exactly when its
    own provider is enabled.  Switched off, it throws a 400 and sends
    nothing; switched on, it sends one 302 redirect, to the callback route
    of that same provider. *)
Theorem login_route_gate (p : AuthProvider) (res : list Redirect) :
  ((login_route p res).1 = inr tt ↔ isOAuthEnabled p = true) ∧
  (isOAuthEnabled p = false →
     ∃ message,
       login_route p res = (inl (HttpException message BAD_REQUEST), res)) ∧
  (isOAuthEnabled p = true →
     login_route p res =
     (inr tt,
      (res ++ [{| status := 302; url := callback_route p |}])%list)).
Proof.
  destruct p; simpl;
    unfold githubOAuthLogin, gitlabOAuthLogin, googleOAuthLogin.
  - destruct githubOAuthStrategyFactory_isOAuthEnabled; simpl;
      split_and!; try done; by eexists.
  - destruct gitlabOAuthStrategyFactory_isOAuthEnabled; simpl;
      split_and!; try done; by eexists.
  - destruct googleOAuthStrategyFactory_isOAuthEnabled; simpl;
      split_and!; try done; by eexists.
Qed.

End login_properties.

Section controller_more_properties.
Context `{svc : AuthService}.
Import AuthController.

(** X2: [validateOtp] sets the cookie exactly when the service validated
    the code, with the data the service returned, and hands back its user;
    an error of the service goes out as it is, with the response
    untouched.  Either way nothing is logged and no OAuth login is made. *)
Theorem validateOtp_cookie_only_when_validated (email otp : string)
    (w : World) :
  logged (validateOtp email otp w).2 = logged w ∧
  login_calls (validateOtp email otp w).2 = login_calls w ∧
  service (validateOtp email otp w).2 =
    (service_validateOtp email otp (service w)).2 ∧
  match (service_validateOtp email otp (service w)).1 with
  | inl e =>
      (validateOtp email otp w).1 = inl e ∧
      response (validateOtp email otp w).2 = response w
  | inr data =>
      (validateOtp email otp w).1 = inr (user_of data) ∧
      response (validateOtp email otp w).2 =
        (response w ++ [Cookie data])%list
  end.
Proof.
  destruct (service_validateOtp email otp (service w)) as [[e|data] s']
    eqn:Hs; simpl.
  - by rewrite (validateOtp_failure _ _ _ _ _ Hs).
  - by rewrite (validateOtp_success _ _ _ _ _ Hs).
Qed.

(** X3: requesting a code and then validating it: [sendOtp] writes
    nothing to the response, whether the service accepted the request or
    not, so after the two calls the response holds one cookie if the
    service, in the state the request left it in, validated the code, and
    is as it was before otherwise. *)
Theorem sendOtp_then_validateOtp (email otp : string) (w : World) :
  response (sendOtp email w).2 = response w ∧
  (sendOtp email w).1 = (service_sendOtp email (service w)).1 ∧
  match (service_validateOtp email otp
           (service_sendOtp email (service w)).2).1 with
  | inl e =>
      (validateOtp email otp (sendOtp email w).2).1 = inl e ∧
      response (validateOtp email otp (sendOtp email w).2).2 = response w
  | inr data =>
      (validateOtp email otp (sendOtp email w).2).1 = inr (user_of data) ∧
      response (validateOtp email otp (sendOtp email w).2).2 =
        (response w ++ [Cookie data])%list
  end.
Proof.
  assert (response (sendOtp email w).2 = response w ∧
          (sendOtp email w).1 = (service_sendOtp email (service w)).1 ∧
          service (sendOtp email w).2 =
            (service_sendOtp email (service w)).2) as (Hr & Ho & Hsv).
  { unfold sendOtp, authService_sendOtp.
    by destruct (service_sendOtp email (service w)). }
  split; [done|]. split; [done|].
  rewrite <- Hsv, <- Hr.
  destruct (service_validateOtp email otp (service (sendOtp email w).2))
    as [[e|data] s'] eqn:Hs; simpl.
  - by rewrite (validateOtp_failure _ _ _ _ _ Hs).
  - by rewrite (validateOtp_success _ _ _ _ _ Hs).
Qed.

(** X4: [handleOAuthProcess] always resolves, calls the service once and
    sends one redirect: either the cookie followed by the success
    redirect for the user of that cookie, with nothing logged, or the
    failure redirect alone, with one line logged.  A cookie never comes
    with a failure redirect. *)
Theorem handleOAuthProcess_one_redirect
    (email name : string) (picture : option string) (p : AuthProvider)
    (w : World) :
  (handleOAuthProcess email name picture p w).1 = inr tt ∧
  login_calls (handleOAuthProcess email name picture p w).2 =
    record_call email name picture p w ∧
  service (handleOAuthProcess email name picture p w).2 =
    (service_handleOAuthLogin email name picture p (service w)).2 ∧
  ((∃ data,
      (service_handleOAuthLogin email name picture p (service w)).1 =
        inr data ∧
      response (handleOAuthProcess email name picture p w).2 =
        (response w ++ [Cookie data; OAuthSuccessRedirect (user_of data)])%list ∧
      logged (handleOAuthProcess email name picture p w).2 = logged w) ∨
   (∃ e,
      (service_handleOAuthLogin email name picture p (service w)).1 =
        inl e ∧
      response (handleOAuthProcess email name picture p w).2 =
        (response w ++
           [OAuthFailureRedirect different_provider_message])%list ∧
      logged (handleOAuthProcess email name picture p w).2 =
        (logged w ++ [different_provider_message])%list)).
Proof.
  destruct (service_handleOAuthLogin email name picture p (service w))
    as [[e|data] s'] eqn:Hs.
  - rewrite (handleOAuthProcess_failure _ _ _ _ _ _ _ Hs). simpl.
    split_and!; try done. right. by exists e.
  - rewrite (handleOAuthProcess_success _ _ _ _ _ _ _ Hs). simpl.
    split_and!; try done. left. exists data.
    by rewrite <- app_assoc.
Qed.

(** X5: a GitLab or Google login that the service accepts ends with the
    cookie of the returned data followed by the success redirect for its
    user; the callback itself returns nothing and logs nothing. *)
Theorem redirecting_callbacks_success
    (u : Profile) (w : World) (e0 : Entry) (es : list Entry) :
  emails u = Some (e0 :: es) →
  (∀ data s',
     service_handleOAuthLogin (value e0) (displayName u) (avatarUrl u)
       GITLAB (service w) = (inr data, s') →
     gitlabOAuthCallback u w =
     (inr tt,
      {| service := s';
         response :=
           (response w ++
              [Cookie data; OAuthSuccessRedirect (user_of data)])%list;
         logged := logged w;
         login_calls :=
           record_call (value e0) (displayName u) (avatarUrl u) GITLAB w
      |})) ∧
  (∀ ps data s',
     photos u = Some ps →
     service_handleOAuthLogin (value e0) (displayName u)
       (value <$> ps !! 0) GOOGLE (service w) = (inr data, s') →
     googleOAuthCallback u w =
     (inr tt,
      {| service := s';
         response :=
           (response w ++
              [Cookie data; OAuthSuccessRedirect (user_of data)])%list;
         logged := logged w;
         login_calls :=
           record_call (value e0) (displayName u)
             (value <$> ps !! 0) GOOGLE w |})).
Proof.
  intros He. split.
  - intros data s' Hs. rewrite (gitlab_with_email u w e0 es He).
    rewrite (handleOAuthProcess_success _ _ _ _ _ _ _ Hs). simpl.
    by rewrite <- app_assoc.
  - intros ps data s' Hp Hs. rewrite (google_with_email u w e0 es ps He Hp).
    rewrite (handleOAuthProcess_success _ _ _ _ _ _ _ Hs). simpl.
    by rewrite <- app_assoc.
Qed.

(** X6: the GitHub callback never writes to the response and never logs,
    whatever the profile (missing keys included) and whatever the service
    answers: an accepted login is returned to the caller as the service's
    data, with no cookie and no redirect. *)
Theorem github_callback_leaves_response (u : Profile) (w : World) :
  response (githubOAuthCallback u w).2 = response w ∧
  logged (githubOAuthCallback u w).2 = logged w ∧
  (∀ e0 es ps data s',
     emails u = Some (e0 :: es) →
     photos u = Some ps →
     service_handleOAuthLogin (value e0) (displayName u)
       (value <$> ps !! 0) GITHUB (service w) = (inr data, s') →
     (githubOAuthCallback u w).1 = inr data).
Proof.
  destruct (emails u) as [[|e0 es]|] eqn:He.
  - rewrite (github_without_emails u w He). by split_and!.
  - destruct (photos u) as [ps|] eqn:Hp.
    + rewrite (github_with_email u w e0 es ps He Hp).
      unfold authService_handleOAuthLogin.
      destruct (service_handleOAuthLogin (value e0) (displayName u)
                  (value <$> ps !! 0) GITHUB (service w))
        as [r s''] eqn:Hs.
      simpl. split_and!; try done.
      intros e1 es1 ps1 data s' [= <- <-] [= <-] Hs'. congruence.
    + rewrite (github_missing_photos u w e0 es He Hp). by split_and!.
  - rewrite (github_missing_emails u w He). by split_and!.
Qed.

(** X7: a callback reads whether the email list is there and empty, its
    first entry and the display name, and of the pictures the first photo
    (GitHub, Google) or the avatar URL (GitLab), and nothing else: two
    profiles that agree on these are handled alike. *)
Theorem callbacks_read_first_entries (u u' : Profile) (w : World) :
  (.!! 0) <$> emails u = (.!! 0) <$> emails u' →
  displayName u = displayName u' →
  ((.!! 0) <$> photos u = (.!! 0) <$> photos u' →
     githubOAuthCallback u w = githubOAuthCallback u' w ∧
     googleOAuthCallback u w = googleOAuthCallback u' w) ∧
  (avatarUrl u = avatarUrl u' →
     gitlabOAuthCallback u w = gitlabOAuthCallback u' w).
Proof.
  intros He Hn.
  destruct (emails u) as [[|e0 es]|] eqn:Hu;
    destruct (emails u') as [[|e0' es']|] eqn:Hu'; simpl in He; try done.
  - rewrite (github_without_emails u w Hu), (github_without_emails u' w Hu'),
      (google_without_emails u w Hu), (google_without_emails u' w Hu'),
      (gitlab_without_emails u w Hu), (gitlab_without_emails u' w Hu').
    done.
  - injection He as <-.
    rewrite (gitlab_with_email u w e0 es Hu),
      (gitlab_with_email u' w e0 es' Hu'), Hn.
    split; [|by intros ->].
    intros Hp.
    destruct (photos u) as [ps|] eqn:Hpu;
      destruct (photos u') as [ps'|] eqn:Hpu'; simpl in Hp; try done.
    + injection Hp as Hp.
      rewrite (github_with_email u w e0 es ps Hu Hpu),
        (github_with_email u' w e0 es' ps' Hu' Hpu'),
        (google_with_email u w e0 es ps Hu Hpu),
        (google_with_email u' w e0 es' ps' Hu' Hpu'), Hn, Hp.
      done.
    + by rewrite (github_missing_photos u w e0 es Hu Hpu),
        (github_missing_photos u' w e0 es' Hu' Hpu'),
        (google_missing_photos u w e0 es Hu Hpu),
        (google_missing_photos u' w e0 es' Hu' Hpu').
  - rewrite (github_missing_emails u w Hu), (github_missing_emails u' w Hu'),
      (google_missing_emails u w Hu), (google_missing_emails u' w Hu'),
      (gitlab_missing_emails u w Hu), (gitlab_missing_emails u' w Hu').
    done.
Qed.

(** X8: a callback calls the service at most once, and always with the
    provider of its own route.  With a first email it is exactly once for
    GitLab, and for GitHub and Google when the [photos] array is there,
    carrying the first email, the display name and the picture; when the
    [photos] key is missing these two throw a [TypeError] before any call.
    With an empty or a missing email list no callback calls the service. *)
Theorem callbacks_call_once_with_own_provider (u : Profile) (w : World) :
  (∀ e0 es, emails u = Some (e0 :: es) →
     login_calls (gitlabOAuthCallback u w).2 =
       record_call (value e0) (displayName u) (avatarUrl u) GITLAB w ∧
     (∀ ps, photos u = Some ps →
        login_calls (githubOAuthCallback u w).2 =
          record_call (value e0) (displayName u) (value <$> ps !! 0)
            GITHUB w ∧
        login_calls (googleOAuthCallback u w).2 =
          record_call (value e0) (displayName u) (value <$> ps !! 0)
            GOOGLE w) ∧
     (photos u = None →
        githubOAuthCallback u w = (inl type_error, w) ∧
        googleOAuthCallback u w = (inl type_error, w))) ∧
  (emails u = Some [] ∨ emails u = None →
     login_calls (githubOAuthCallback u w).2 = login_calls w ∧
     login_calls (gitlabOAuthCallback u w).2 = login_calls w ∧
     login_calls (googleOAuthCallback u w).2 = login_calls w).
Proof.
  split.
  - intros e0 es He. rewrite (gitlab_with_email u w e0 es He). simpl.
    split_and!.
    + apply handleOAuthProcess_calls.
    + intros ps Hp.
      rewrite (github_with_email u w e0 es ps He Hp),
        (google_with_email u w e0 es ps He Hp). simpl.
      split; [apply login_call_recorded | apply handleOAuthProcess_calls].
    + intros Hp.
      by rewrite (github_missing_photos u w e0 es He Hp),
        (google_missing_photos u w e0 es He Hp).
  - intros [He|He].
    + by rewrite (github_without_emails u w He),
        (gitlab_without_emails u w He), (google_without_emails u w He).
    + by rewrite (github_missing_emails u w He),
        (gitlab_missing_emails u w He), (google_missing_emails u w He).
Qed.

(** X9: an exception out of the GitLab or the Google callback is always
    thrown before the service is called: the world is as it was (no login
    call, nothing sent, nothing logged), so it is never an error of the
    login resolution.  An exception out of the GitHub callback either
    likewise comes before the call, or is the very exception the service
    raised for this one login. *)
Theorem callback_exceptions (u : Profile) (w : World) (e : Exception) :
  ((gitlabOAuthCallback u w).1 = inl e →
     gitlabOAuthCallback u w = (inl e, w)) ∧
  ((googleOAuthCallback u w).1 = inl e →
     googleOAuthCallback u w = (inl e, w)) ∧
  ((githubOAuthCallback u w).1 = inl e →
     githubOAuthCallback u w = (inl e, w) ∨
     (∃ e0 es ps,
        emails u = Some (e0 :: es) ∧ photos u = Some ps ∧
        (service_handleOAuthLogin (value e0) (displayName u)
           (value <$> ps !! 0) GITHUB (service w)).1 = inl e ∧
        login_calls (githubOAuthCallback u w).2 =
          record_call (value e0) (displayName u) (value <$> ps !! 0)
            GITHUB w)).
Proof.
  destruct (emails u) as [[|e0 es]|] eqn:He.
  - rewrite (github_without_emails u w He), (gitlab_without_emails u w He),
      (google_without_emails u w He). simpl.
    split_and!; intros [= <-]; try done. by left.
  - rewrite (gitlab_with_email u w e0 es He).
    destruct (photos u) as [ps|] eqn:Hp.
    + rewrite (github_with_email u w e0 es ps He Hp),
        (google_with_email u w e0 es ps He Hp).
      simpl. split_and!; try done.
      intros Hg. right. exists e0, es, ps. split_and!; try done.
      * revert Hg. unfold authService_handleOAuthLogin.
        by destruct (service_handleOAuthLogin _ _ _ _ _).
      * apply login_call_recorded.
    + rewrite (github_missing_photos u w e0 es He Hp),
        (google_missing_photos u w e0 es He Hp).
      simpl. split_and!; try done; intros [= <-]; try done. by left.
  - rewrite (github_missing_emails u w He), (gitlab_missing_emails u w He),
      (google_missing_emails u w He). simpl.
    split_and!; intros [= <-]; try done. by left.
Qed.

End controller_more_properties.

(** ** Further concrete requests *)

Section controller_more_examples.
Import AuthController.

Lemma login_route_gate_witness :
  (∃ message,
     AuthLogin.login_route (factories := sample_factories) GITLAB [] =
     (inl (HttpException message AuthLogin.BAD_REQUEST), [])) ∧
  AuthLogin.login_route (factories := sample_factories) GITHUB [] =
    (inr tt,
     [{| AuthLogin.status := 302;
         AuthLogin.url := "/api/auth/github/callback" |}]).
Proof.
  split.
  - exact (proj1 (proj2 (login_route_gate (factories := sample_factories)
                           GITLAB [])) eq_refl).
  - exact (proj2 (proj2 (login_route_gate (factories := sample_factories)
                           GITHUB [])) eq_refl).
Defined.

Lemma redirecting_callbacks_success_witness :
  response
    (gitlabOAuthCallback (sample_profile "b@x.com")
       (fresh_world (svc := sample_service) [])).2 =
  [Cookie (svc := sample_service) ("b@x.com", "token");
   OAuthSuccessRedirect (svc := sample_service) "b@x.com"].
Proof.
  destruct (redirecting_callbacks_success (svc := sample_service)
              (sample_profile "b@x.com")
              (fresh_world (svc := sample_service) [])
              {| value := "b@x.com" |} [] eq_refl) as [Hgitlab _].
  by rewrite (Hgitlab ("b@x.com", "token") [("b@x.com", GITLAB)] eq_refl).
Defined.

Lemma github_callback_leaves_response_witness :
  (githubOAuthCallback (sample_profile "b@x.com")
     (fresh_world (svc := sample_service) [])).1 =
  inr ("b@x.com", "token").
Proof.
  destruct (github_callback_leaves_response (svc := sample_service)
              (sample_profile "b@x.com")
              (fresh_world (svc := sample_service) [])) as (_ & _ & H).
  exact (H {| value := "b@x.com" |} [] [] ("b@x.com", "token")
           [("b@x.com", GITHUB)] eq_refl eq_refl eq_refl).
Defined.

Lemma callbacks_read_first_entries_witness :
  githubOAuthCallback long_profile (conflict_world GITHUB) =
  githubOAuthCallback short_profile (conflict_world GITHUB) ∧
  googleOAuthCallback long_profile (conflict_world GITHUB) =
  googleOAuthCallback short_profile (conflict_world GITHUB).
Proof.
  exact (proj1 (callbacks_read_first_entries (svc := sample_service)
                  long_profile short_profile (conflict_world GITHUB)
                  eq_refl eq_refl) eq_refl).
Defined.

Lemma callbacks_call_once_with_own_provider_witness :
  login_calls
    (gitlabOAuthCallback (profile_without_photos "b@x.com")
       (conflict_world GITHUB)).2 =
  [{| call_email := "b@x.com"; call_name := "Bob";
      call_profilePictureUrl := None; call_provider := GITLAB |}] ∧
  googleOAuthCallback (profile_without_photos "b@x.com")
    (conflict_world GITHUB) =
  (inl type_error, conflict_world GITHUB).
Proof.
  destruct (proj1 (callbacks_call_once_with_own_provider
                     (svc := sample_service)
                     (profile_without_photos "b@x.com")
                     (conflict_world GITHUB))
              {| value := "b@x.com" |} [] eq_refl)
    as (Hgitlab & _ & Hmissing).
  split; [exact Hgitlab | exact (proj2 (Hmissing eq_refl))].
Defined.

Lemma callback_exceptions_witness :
  googleOAuthCallback (profile_without_photos "b@x.com")
    (conflict_world GITHUB) =
  (inl type_error, conflict_world GITHUB).
Proof.
  exact (proj1 (proj2 (callback_exceptions (svc := sample_service)
                         (profile_without_photos "b@x.com")
                         (conflict_world GITHUB) type_error))
           eq_refl).
Defined.

End controller_more_examples.
